(** * Vehicle router of the car-rental service (routers/auto.py)

    A shallow embedding of the seven FastAPI handlers of [routers/auto.py]
    over an explicit database session, and the properties of the
    specification that concern them. *)

From Stdlib Require Import ZArith QArith Ascii String.
From stdpp Require Import base option list gmap strings pretty.

Local Open Scope string_scope.
Local Open Scope Z_scope.

(** ** Data model *)

(** Modelled from the spec: [price_per_hour] is a positive decimal (the
    column type is declared in [models/auto.py], which is not among the
    sources); decimals are read as exact rationals. *)
Definition Decimal : Type := Q.

(** Modelled from the spec: a row of the vehicle table ([models.auto.Auto],
    not among the sources), with the attribute names [routers/auto.py] reads
    and writes. *)
Record AutoModel := mkAuto {
  id : Z;
  brand : string;
  model : string;
  jahr : Z;
  preis_pro_stunde : Decimal;
  status : bool
}.

(** Modelled from the spec: the request body of [POST /auto]
    ([schemas.auto.AutoCreate], not among the sources), with the attributes
    [create_auto] reads. *)
Record AutoCreate := mkAutoCreate {
  c_brand : string;
  c_model : string;
  c_jahr : Z;
  c_preis_pro_stunde : Decimal;
  c_status : bool
}.

(** Modelled from the spec: the request body of [PUT /autos/{auto_id}]
    ([schemas.auto.AutoUpdate], not among the sources): every field is
    optional, [None] standing for a field that was not sent. *)
Record AutoUpdate := mkAutoUpdate {
  u_brand : option string;
  u_model : option string;
  u_jahr : option Z;
  u_preis_pro_stunde : option Decimal;
  u_status : option bool
}.

(** The object returned by [calculate_total_price]. *)
Record PriceResult := mkPriceResult {
  auto_id : Z;
  rental_duration_hours : Z;
  price_per_hour : Decimal;
  total_price : Decimal
}.

(** Modelled from the spec: the persistence store behind the SQLAlchemy
    session ([data_base.py] is not among the sources): the table, keyed by
    its primary key, and the sequence the store assigns the next primary key
    from. *)
Record Session := mkSession {
  table : gmap Z AutoModel;
  next_id : Z
}.

Definition empty_session : Session := mkSession ∅ 1.

(** ** Failures and the handler monad *)

Inductive Failure :=
  | HTTPException (status_code : Z) (detail : string)
  | RequestValidationError (locs : list string)
  | AuthorizationError.

Definition status_code_of (f : Failure) : Z :=
  match f with
  | HTTPException c _ => c
  | RequestValidationError _ => 422
  | AuthorizationError => 403
  end.

Inductive Result (A : Type) :=
  | Ok (a : A)
  | Raise (f : Failure).
Arguments Ok {A} a.
Arguments Raise {A} f.

(** A handler reads and writes the session and either returns or raises. *)
Definition Handler (A : Type) : Type := Session → Result A * Session.

Definition raise {A} (f : Failure) : Handler A := λ db, (Raise f, db).

#[export] Instance Handler_ret : MRet Handler := λ A a db, (Ok a, db).
#[export] Instance Handler_bind : MBind Handler := λ A B k m db,
  match m db with
  | (Ok a, db') => k a db'
  | (Raise f, db') => (Raise f, db')
  end.

(** ** Session primitives *)

(** [db.query(AutoModel).filter(AutoModel.id == auto_id).first()] *)
Definition query_first (auto_id : Z) : Handler (option AutoModel) :=
  λ db, (Ok (table db !! auto_id), db).

Definition rows (db : Session) : list AutoModel := (map_to_list (table db)).*2.

(** [db.query(AutoModel).filter(...).all()] *)
Definition query_all (p : AutoModel → bool) : Handler (list AutoModel) :=
  λ db, (Ok (List.filter p (rows db)), db).

(** [db.add(db_auto); db.commit(); db.refresh(db_auto)] *)
Definition add_commit_refresh (a : AutoCreate) : Handler AutoModel :=
  λ db,
    let db_auto := mkAuto (next_id db) (c_brand a) (c_model a) (c_jahr a)
                          (c_preis_pro_stunde a) (c_status a) in
    (Ok db_auto, mkSession (<[next_id db := db_auto]> (table db)) (next_id db + 1)).

(** [db.commit(); db.refresh(auto)] after attribute assignments on [auto] *)
Definition commit_refresh (auto : AutoModel) : Handler AutoModel :=
  λ db, (Ok auto, mkSession (<[id auto := auto]> (table db)) (next_id db)).

(** [db.delete(auto); db.commit()] *)
Definition delete_commit (auto : AutoModel) : Handler unit :=
  λ db, (Ok tt, mkSession (delete (id auto) (table db)) (next_id db)).

(** ** Text matching *)

Definition lower_ascii (c : ascii) : ascii :=
  let n := N_of_ascii c in
  if ((65 <=? n) && (n <=? 90))%N then ascii_of_N (n + 32) else c.

Fixpoint lower (s : string) : string :=
  match s with
  | EmptyString => EmptyString
  | String c s' => String (lower_ascii c) (lower s')
  end.

(** SQL [LIKE]: [%] stands for any run of characters, [_] for any single
    character, every other character for itself. *)
Fixpoint like (p s : string) {struct p} : bool :=
  match p with
  | EmptyString => match s with EmptyString => true | String _ _ => false end
  | String c p' =>
      if Ascii.eqb c "%" then
        (fix skip (t : string) : bool :=
           like p' t || match t with
                        | EmptyString => false
                        | String _ t' => skip t'
                        end) s
      else
        match s with
        | EmptyString => false
        | String d s' => (Ascii.eqb c "_" || Ascii.eqb c d) && like p' s'
        end
  end.

(** [column.ilike(pattern)]: [LIKE] on the lower-cased operands. *)
Definition ilike (column pattern : string) : bool :=
  like (lower pattern) (lower column).

Fixpoint is_prefix (p s : string) : bool :=
  match p, s with
  | EmptyString, _ => true
  | String _ _, EmptyString => false
  | String c p', String d s' => Ascii.eqb c d && is_prefix p' s'
  end.

(** [needle in hay] on Python strings. *)
Fixpoint contains (needle hay : string) : bool :=
  is_prefix needle hay ||
  match hay with
  | EmptyString => false
  | String _ hay' => contains needle hay'
  end.

(** Case-insensitive substring test. *)
Definition contains_ci (needle hay : string) : bool :=
  contains (lower needle) (lower hay).

(** ** Roles and the authorisation dependencies *)

Inductive Role := owner | customer | guest | unauthenticated.

(** Modelled from the spec: [services.dependencies.owner_required] (the
    module is not among the sources) lets the owner role through and refuses
    every other role, authenticated or not, with 403. *)
Definition owner_required (current_user : Role) : Handler Role :=
  match current_user with
  | owner => mret current_user
  | _ => raise AuthorizationError
  end.

(** Modelled from the spec: [services.dependencies.owner_or_customer_required]
    lets the owner and customer roles through and refuses the others with
    403. *)
Definition owner_or_customer_required (current_user : Role) : Handler Role :=
  match current_user with
  | owner | customer => mret current_user
  | _ => raise AuthorizationError
  end.

(** ** Request validation *)

(** The declared constraints of the path and query parameters are checked
    together, after the dependencies have been resolved; the parameters that
    violate theirs are reported in one 422 response. *)
Definition validate (checks : list (string * bool)) : Handler unit :=
  match List.filter (λ c, negb c.2) checks with
  | [] => mret tt
  | bad => raise (RequestValidationError bad.*1)
  end.

(** ** The handlers of [routers/auto.py] *)

Definition create_auto (current_user : Role) (auto : AutoCreate)
  : Handler AutoModel :=
  _ ← owner_required current_user;
  if Qle_bool (c_preis_pro_stunde auto) 0 then
    raise (HTTPException 400 "Price per hour must be greater than 0.")
  else
    db_auto ← add_commit_refresh auto;
    mret db_auto.

Definition show_all_auto (current_user : Role) : Handler (list AutoModel) :=
  _ ← owner_required current_user;
  autos ← query_all (λ a, status a);
  mret autos.

(** [if brand: query = query.filter(column.ilike(f"%{brand}%"))]: the
    clause is added for a text that is neither [None] nor empty. *)
Definition text_clause (text : option string) (column : string) : bool :=
  match text with
  | Some (String _ _ as t) => ilike column ("%" +:+ t +:+ "%")
  | Some EmptyString | None => true
  end.

(** [if jahr: query = query.filter(AutoModel.jahr == jahr)]: the clause is
    added for a year that is neither [None] nor [0]. *)
Definition jahr_clause (jahr' : option Z) (column : Z) : bool :=
  match jahr' with
  | Some j => if j =? 0 then true else column =? j
  | None => true
  end.

(** [if status is not None: query = query.filter(AutoModel.status == status)] *)
Definition status_clause (status' : option bool) (column : bool) : bool :=
  match status' with
  | Some st => Bool.eqb column st
  | None => true
  end.

(** The filter [search_auto] builds from its query parameters. *)
Definition search_filter (brand' model' : option string) (jahr' : option Z)
    (status' : option bool) (a : AutoModel) : bool :=
  text_clause brand' (brand a)
  && text_clause model' (model a)
  && jahr_clause jahr' (jahr a)
  && status_clause status' (status a).

Definition jahr_in_range (year_now : Z) (jahr' : option Z) : bool :=
  match jahr' with
  | Some j => (2000 <=? j) && (j <=? year_now)
  | None => true
  end.

(** [year_now] is [datetime.now().year], read once when the module is
    loaded. *)
Definition search_auto (year_now : Z) (current_user : Role)
    (brand' model' : option string) (jahr' : option Z) (status' : option bool)
  : Handler (list AutoModel) :=
  _ ← owner_or_customer_required current_user;
  _ ← validate [("jahr", jahr_in_range year_now jahr')];
  result ← query_all (search_filter brand' model' jahr' status');
  match result with
  | [] => raise (HTTPException 404 "No matching autos found.")
  | _ => mret result
  end.

Definition show_auto (current_user : Role) (auto_id : Z) : Handler AutoModel :=
  _ ← owner_required current_user;
  auto_details ← query_first auto_id;
  match auto_details with
  | None =>
      raise (HTTPException 404
               ("Auto with ID " +:+ pretty auto_id +:+ " not found."))
  | Some auto_details => mret auto_details
  end.

(** The attribute assignments of [update_auto], in the order of the source. *)
Definition set_preis (v : option Decimal) (a : AutoModel) : AutoModel :=
  match v with
  | Some p => mkAuto (id a) (brand a) (model a) (jahr a) p (status a)
  | None => a
  end.

Definition set_brand (v : option string) (a : AutoModel) : AutoModel :=
  match v with
  | Some b => mkAuto (id a) b (model a) (jahr a) (preis_pro_stunde a) (status a)
  | None => a
  end.

Definition set_model (v : option string) (a : AutoModel) : AutoModel :=
  match v with
  | Some m => mkAuto (id a) (brand a) m (jahr a) (preis_pro_stunde a) (status a)
  | None => a
  end.

Definition set_jahr (v : option Z) (a : AutoModel) : AutoModel :=
  match v with
  | Some j => mkAuto (id a) (brand a) (model a) j (preis_pro_stunde a) (status a)
  | None => a
  end.

Definition set_status (v : option bool) (a : AutoModel) : AutoModel :=
  match v with
  | Some s => mkAuto (id a) (brand a) (model a) (jahr a) (preis_pro_stunde a) s
  | None => a
  end.

Definition invalid_preis (v : option Decimal) : bool :=
  match v with
  | Some p => Qle_bool p 0
  | None => false
  end.

Definition update_auto (current_user : Role) (auto_id : Z)
    (auto_update : AutoUpdate) : Handler AutoModel :=
  _ ← owner_required current_user;
  auto ← query_first auto_id;
  match auto with
  | None =>
      raise (HTTPException 404
               ("Auto with ID " +:+ pretty auto_id +:+ " does not exist."))
  | Some auto =>
      if invalid_preis (u_preis_pro_stunde auto_update) then
        raise (HTTPException 400 "Price per hour must be greater than 0.")
      else
        let auto := set_preis (u_preis_pro_stunde auto_update) auto in
        let auto := set_brand (u_brand auto_update) auto in
        let auto := set_model (u_model auto_update) auto in
        let auto := set_jahr (u_jahr auto_update) auto in
        let auto := set_status (u_status auto_update) auto in
        auto ← commit_refresh auto;
        mret auto
  end.

Definition calculate_total_price (current_user : Role)
    (auto_id mietdauer_stunden : Z) : Handler PriceResult :=
  _ ← owner_or_customer_required current_user;
  _ ← validate [("auto_id", 0 <? auto_id);
                ("mietdauer_stunden", 0 <? mietdauer_stunden)];
  auto ← query_first auto_id;
  match auto with
  | None =>
      raise (HTTPException 404
               ("Auto with ID " +:+ pretty auto_id +:+ " is not available."))
  | Some auto =>
      if negb (status auto) then
        raise (HTTPException 400 "The auto is currently not available.")
      else
        let total_price := Qmult (preis_pro_stunde auto)
                                 (inject_Z mietdauer_stunden) in
        mret (mkPriceResult auto_id mietdauer_stunden
                            (preis_pro_stunde auto) total_price)
  end.

Definition delete_auto (current_user : Role) (auto_id : Z) : Handler unit :=
  _ ← owner_required current_user;
  auto ← query_first auto_id;
  match auto with
  | None =>
      raise (HTTPException 404
               ("Auto with ID " +:+ pretty auto_id +:+ " not found."))
  | Some auto => delete_commit auto
  end.

(** ** The error taxonomy of the specification *)

Definition NotFoundError := HTTPException 404.
Definition BusinessValidationError := HTTPException 400.

(** ** Requests and reachable sessions *)

Inductive Request :=
  | PostAuto (auto : AutoCreate)
  | GetAutos
  | GetSearch (brand' model' : option string) (jahr' : option Z)
              (status' : option bool)
  | GetAuto (auto_id : Z)
  | PutAuto (auto_id : Z) (auto_update : AutoUpdate)
  | PostCalculatePrice (auto_id mietdauer_stunden : Z)
  | DeleteAuto (auto_id : Z).

(** The session a request leaves behind. *)
Definition serve (year_now : Z) (current_user : Role) (r : Request)
    (db : Session) : Session :=
  match r with
  | PostAuto auto => (create_auto current_user auto db).2
  | GetAutos => (show_all_auto current_user db).2
  | GetSearch b m j st => (search_auto year_now current_user b m j st db).2
  | GetAuto i => (show_auto current_user i db).2
  | PutAuto i u => (update_auto current_user i u db).2
  | PostCalculatePrice i h => (calculate_total_price current_user i h db).2
  | DeleteAuto i => (delete_auto current_user i db).2
  end.

Inductive reachable (year_now : Z) : Session → Prop :=
  | reachable_empty : reachable year_now empty_session
  | reachable_serve db current_user r :
      reachable year_now db →
      reachable year_now (serve year_now current_user r db).

(** Every row sits under its own primary key, and the keys handed out so far
    are positive and below the sequence. *)
Definition store_inv (db : Session) : Prop :=
  ∀ k a, table db !! k = Some a → id a = k ∧ 0 < k < next_id db.

Definition allowed_owner_or_customer (r : Role) : Prop :=
  r = owner ∨ r = customer.

(** What the specification asks of a search: every supplied filter holds,
    texts as case-insensitive substrings, year and status exactly. *)
Definition spec_match (brand' model' : option string) (jahr' : option Z)
    (status' : option bool) (a : AutoModel) : bool :=
  from_option (λ b, contains_ci b (brand a)) true brand'
  && from_option (λ m, contains_ci m (model a)) true model'
  && from_option (λ j, jahr a =? j) true jahr'
  && from_option (λ st, Bool.eqb (status a) st) true status'.

(** A text without the [LIKE] wildcards. *)
Fixpoint plain (s : string) : bool :=
  match s with
  | EmptyString => true
  | String c s' =>
      negb (Ascii.eqb c "%") && negb (Ascii.eqb c "_") && plain s'
  end.

(** [f] holds of some suffix of [s]. *)
Fixpoint some_suffix (f : string → bool) (s : string) : bool :=
  f s || match s with
         | EmptyString => false
         | String _ s' => some_suffix f s'
         end.

Definition plain_filter (o : option string) : Prop :=
  ∀ s, o = Some s → plain s = true.

(** The price of an update, when it carries one, is positive. *)
Definition valid_preis (u : AutoUpdate) : Prop :=
  ∀ p, u_preis_pro_stunde u = Some p → Qlt 0 p.

(** Every stored price is positive. *)
Definition prices_positive (db : Session) : Prop :=
  ∀ k a, table db !! k = Some a → Qlt 0 (preis_pro_stunde a).

(** The five attribute assignments of [update_auto] in one step. *)
Definition apply_update (u : AutoUpdate) (a : AutoModel) : AutoModel :=
  set_status (u_status u) (set_jahr (u_jahr u) (set_model (u_model u)
    (set_brand (u_brand u) (set_preis (u_preis_pro_stunde u) a)))).

(** An update that carries no field. *)
Definition no_change : AutoUpdate := mkAutoUpdate None None None None None.

(** ** Sample data, after the fixtures of tests/test_router_auto.py *)

Definition bmw : AutoCreate := mkAutoCreate "BMW" "sedan" 2010 (30 # 1) true.
Definition tesla : AutoCreate :=
  mkAutoCreate "Tesla" "model 3" 2020 (50 # 1) false.
Definition bmw_row : AutoModel := mkAuto 1 "BMW" "sedan" 2010 (30 # 1) true.
Definition tesla_row : AutoModel :=
  mkAuto 2 "Tesla" "model 3" 2020 (50 # 1) false.
Definition one_bmw : Session := (create_auto owner bmw empty_session).2.
Definition bmw_and_tesla : Session := (create_auto owner tesla one_bmw).2.

(** * Properties *)

Ltac run_handler :=
  unfold create_auto, show_all_auto, search_auto, show_auto, update_auto,
    calculate_total_price, delete_auto, owner_required,
    owner_or_customer_required, validate, query_first, query_all,
    add_commit_refresh, commit_refresh, delete_commit, raise,
    mbind, Handler_bind, mret, Handler_ret; cbn.

(** ** The store invariant *)

Lemma store_inv_empty : store_inv empty_session.
Proof. intros k a H. cbn in H. by rewrite lookup_empty in H. Qed.

Lemma store_inv_lookup db a :
  store_inv db → a ∈ rows db → table db !! id a = Some a.
Proof.
  intros Hinv Hin. unfold rows in Hin.
  apply list_elem_of_fmap in Hin as [[k b] [-> Hkb]].
  apply elem_of_map_to_list in Hkb. cbn.
  destruct (Hinv _ _ Hkb) as [-> _]. done.
Qed.

Lemma rows_lookup db k a : table db !! k = Some a → a ∈ rows db.
Proof.
  intros H. unfold rows. apply list_elem_of_fmap. exists (k, a).
  split; [done|]. by apply elem_of_map_to_list.
Qed.

Lemma store_inv_insert_new db a :
  store_inv db → 0 < next_id db → id a = next_id db →
  store_inv (mkSession (<[next_id db := a]> (table db)) (next_id db + 1)).
Proof.
  intros Hinv Hpos Hid k b. cbn. rewrite lookup_insert.
  case_decide as Hk.
  - intros [= <-]. subst k. split; [done|lia].
  - intros Hb. destruct (Hinv _ _ Hb) as [? ?]. split; [done|lia].
Qed.

Lemma store_inv_insert_same db k a b :
  store_inv db → table db !! k = Some a → id b = k →
  store_inv (mkSession (<[k := b]> (table db)) (next_id db)).
Proof.
  intros Hinv Ha Hid j c. cbn. rewrite lookup_insert.
  case_decide as Hk.
  - intros [= <-]. subst j. split; [done|]. by destruct (Hinv _ _ Ha).
  - intros Hc. exact (Hinv _ _ Hc).
Qed.

Lemma store_inv_delete db k :
  store_inv db → store_inv (mkSession (delete k (table db)) (next_id db)).
Proof.
  intros Hinv j c. cbn. rewrite lookup_delete.
  case_decide; [done|]. apply Hinv.
Qed.

Lemma set_fields_id u a :
  id (set_status (u_status u) (set_jahr (u_jahr u) (set_model (u_model u)
       (set_brand (u_brand u) (set_preis (u_preis_pro_stunde u) a))))) = id a.
Proof.
  destruct u as [[?|] [?|] [?|] [?|] [?|]]; reflexivity.
Qed.

(** Handlers keep the invariant, together with a positive sequence. *)
Lemma serve_inv year_now current_user r db :
  store_inv db ∧ 0 < next_id db →
  store_inv (serve year_now current_user r db)
  ∧ 0 < next_id (serve year_now current_user r db).
Proof.
  intros [Hinv Hpos]. destruct r as [auto| |b m j st|i|i u|i h|i]; cbn.
  - run_handler. destruct current_user; cbn; try done.
    destruct (Qle_bool _ _); cbn; [done|].
    split; [by apply store_inv_insert_new|lia].
  - run_handler. by destruct current_user.
  - run_handler. destruct current_user; cbn; try done;
      (destruct (jahr_in_range year_now j); cbn; [|done];
       by destruct (List.filter _ _)).
  - run_handler. destruct current_user; cbn; try done.
    by destruct (table db !! i).
  - run_handler. destruct current_user; cbn; try done.
    destruct (table db !! i) as [a|] eqn:Ha; cbn; [|done].
    destruct (invalid_preis _); cbn; [done|].
    split; [|done]. rewrite set_fields_id.
    destruct (Hinv _ _ Ha) as [Hid _].
    eapply store_inv_insert_same; [done| |].
    + rewrite Hid. exact Ha.
    + by rewrite set_fields_id.
  - run_handler. destruct current_user; cbn; try done;
      (destruct (0 <? i), (0 <? h); cbn; try done;
       destruct (table db !! i) as [a|]; cbn; [|done];
       by destruct (status a)).
  - run_handler. destruct current_user; cbn; try done.
    destruct (table db !! i) as [a|]; cbn; [|done].
    split; [by apply store_inv_delete|done].
Qed.

Lemma reachable_inv year_now db :
  reachable year_now db → store_inv db ∧ 0 < next_id db.
Proof.
  induction 1 as [|db u r _ IH].
  - split; [apply store_inv_empty|done].
  - by apply serve_inv.
Qed.

(** ** Price calculation *)

Section CalculatePrice.
Variable db : Session.
Variable current_user : Role.
Hypothesis Hrole : allowed_owner_or_customer current_user.

Lemma calculate_total_price_lookup i h :
  0 < i → 0 < h →
  calculate_total_price current_user i h db =
    match table db !! i with
    | None =>
        (Raise (NotFoundError
                  ("Auto with ID " +:+ pretty i +:+ " is not available.")), db)
    | Some a =>
        if status a then
          (Ok (mkPriceResult i h (preis_pro_stunde a)
                 (Qmult (preis_pro_stunde a) (inject_Z h))), db)
        else
          (Raise (BusinessValidationError
                    "The auto is currently not available."), db)
    end.
Proof.
  intros Hi Hh. run_handler.
  apply Z.ltb_lt in Hi, Hh. rewrite Hi, Hh. cbn.
  destruct Hrole as [-> | ->]; cbn;
    (destruct (table db !! i) as [a|]; [by destruct (status a)|done]).
Qed.
End CalculatePrice.

(** C1: for every available vehicle held by the store and every duration
    [h > 0], the price calculation returns the vehicle id, [h], the
    vehicle's hourly price and their exact product, and leaves the session
    as it was. *)
Theorem calculate_total_price_available db current_user a h :
  store_inv db →
  allowed_owner_or_customer current_user →
  a ∈ rows db → status a = true → 0 < h →
  calculate_total_price current_user (id a) h db =
    (Ok {| auto_id := id a;
           rental_duration_hours := h;
           price_per_hour := preis_pro_stunde a;
           total_price := Qmult (preis_pro_stunde a) (inject_Z h) |},
     db).
Proof.
  intros Hinv Hrole Hin Hst Hh.
  pose proof (store_inv_lookup _ _ Hinv Hin) as Hlk.
  destruct (Hinv _ _ Hlk) as [_ [Hpos _]].
  rewrite calculate_total_price_lookup by done.
  by rewrite Hlk, Hst.
Qed.

Lemma one_bmw_inv : store_inv one_bmw.
Proof.
  apply (serve_inv 2026 owner (PostAuto bmw) empty_session).
  split; [apply store_inv_empty|done].
Qed.

Lemma calculate_total_price_available_witness :
  calculate_total_price customer 1 5 one_bmw =
    (Ok (mkPriceResult 1 5 (30 # 1) (Qmult (30 # 1) (inject_Z 5))), one_bmw).
Proof.
  apply (calculate_total_price_available one_bmw customer bmw_row 5).
  - exact one_bmw_inv.
  - by right.
  - apply (rows_lookup one_bmw 1). by vm_compute.
  - reflexivity.
  - lia.
Defined.

(** C2 as stated fails for an id that is not positive: the path constraint
    answers 422 before the store is asked. *)
Lemma calculate_total_price_every_id_counterexample :
  ¬ (∀ db i h, 0 < h → table db !! i = None →
       ∃ detail, (calculate_total_price owner i h db).1
                 = Raise (NotFoundError detail)).
Proof.
  intros H. destruct (H empty_session 0 1) as [d Hd]; [lia|done|].
  vm_compute in Hd. discriminate Hd.
Qed.

(** C2 (amended): for a positive id and a positive duration, the price
    calculation answers 404 when the store has no vehicle under the id, and
    400 when it has one that is not available, whatever the duration; the
    session is left as it was. *)
Theorem calculate_total_price_errors db current_user i h :
  allowed_owner_or_customer current_user →
  0 < i → 0 < h →
  (table db !! i = None →
     calculate_total_price current_user i h db =
       (Raise (NotFoundError
                 ("Auto with ID " +:+ pretty i +:+ " is not available.")), db))
  ∧ (∀ a, table db !! i = Some a → status a = false →
       calculate_total_price current_user i h db =
         (Raise (BusinessValidationError
                   "The auto is currently not available."), db)).
Proof.
  intros Hrole Hi Hh.
  rewrite calculate_total_price_lookup by done.
  split.
  - by intros ->.
  - by intros a -> ->.
Qed.

Lemma calculate_total_price_errors_witness :
  calculate_total_price owner 7 2 bmw_and_tesla =
    (Raise (NotFoundError "Auto with ID 7 is not available."), bmw_and_tesla)
  ∧ calculate_total_price owner 2 3 bmw_and_tesla =
      (Raise (BusinessValidationError "The auto is currently not available."),
       bmw_and_tesla).
Proof.
  split.
  - apply (calculate_total_price_errors bmw_and_tesla owner 7 2);
      [by left|lia|lia|reflexivity].
  - apply (calculate_total_price_errors bmw_and_tesla owner 2 3) with tesla_row;
      [by left|lia|lia|reflexivity|reflexivity].
Defined.

(** ** Price validation on create and update *)

(** C3: a price that is not positive makes [create_auto] fail with 400 and
    insert nothing, and makes [update_auto] on an existing vehicle fail with
    400 and leave the stored row, and the whole session, as it was. *)
Theorem nonpositive_price_rejected :
  (∀ db auto,
     Qle (c_preis_pro_stunde auto) 0 →
     create_auto owner auto db =
       (Raise (BusinessValidationError
                 "Price per hour must be greater than 0."), db))
  ∧ (∀ db i a u p,
       table db !! i = Some a →
       u_preis_pro_stunde u = Some p → Qle p 0 →
       update_auto owner i u db =
         (Raise (BusinessValidationError
                   "Price per hour must be greater than 0."), db)).
Proof.
  split.
  - intros db auto Hp. run_handler.
    apply Qle_bool_iff in Hp. by rewrite Hp.
  - intros db i a u p Ha Hu Hp. run_handler.
    rewrite Ha, Hu. cbn. apply Qle_bool_iff in Hp. by rewrite Hp.
Qed.

Lemma nonpositive_price_rejected_witness :
  create_auto owner (mkAutoCreate "BMW" "sedan" 2010 (0 # 1) true) one_bmw =
    (Raise (BusinessValidationError "Price per hour must be greater than 0."),
     one_bmw)
  ∧ update_auto owner 1
      (mkAutoUpdate (Some "Audi") None None (Some (-5 # 1)%Q) (Some false))
      one_bmw =
    (Raise (BusinessValidationError "Price per hour must be greater than 0."),
     one_bmw).
Proof.
  split.
  - apply (proj1 nonpositive_price_rejected). by vm_compute.
  - apply (proj2 nonpositive_price_rejected one_bmw 1 bmw_row _ (-5 # 1)%Q);
      [reflexivity|reflexivity|by vm_compute].
Defined.

(** ** Listing and searching *)

Lemma show_all_auto_owner db :
  show_all_auto owner db = (Ok (List.filter status (rows db)), db).
Proof. reflexivity. Qed.

Section Search.
Variable year_now : Z.
Variable current_user : Role.
Hypothesis Hrole : allowed_owner_or_customer current_user.

(** What a search computes once the role and the year have passed. *)
Lemma search_auto_run b m j st db :
  jahr_in_range year_now j = true →
  search_auto year_now current_user b m j st db =
    match List.filter (search_filter b m j st) (rows db) with
    | [] => (Raise (NotFoundError "No matching autos found."), db)
    | result => (Ok result, db)
    end.
Proof.
  intros Hj. run_handler. rewrite Hj. cbn.
  destruct Hrole as [-> | ->]; cbn; by destruct (List.filter _ _).
Qed.

Lemma search_auto_no_match b m j st db :
  jahr_in_range year_now j = true →
  (∀ a, a ∈ rows db → search_filter b m j st a = false) →
  search_auto year_now current_user b m j st db =
    (Raise (NotFoundError "No matching autos found."), db).
Proof.
  intros Hj Hnone. rewrite search_auto_run by done.
  destruct (List.filter _ _) as [|a l] eqn:Hf; [done|].
  assert (Ha : In a (List.filter (search_filter b m j st) (rows db)))
    by (rewrite Hf; by left).
  apply filter_In in Ha as [Ha Hm].
  apply list_elem_of_In in Ha. by rewrite (Hnone a Ha) in Hm.
Qed.
End Search.

(** C4: listing the available vehicles succeeds in every session with
    exactly the rows whose status is true, an empty list included; a search
    none of whose rows passes the filters fails with 404; so when no vehicle
    is available the listing answers with the empty list where the search
    for available vehicles answers 404. *)
Theorem list_available_and_search_on_empty_result :
  (∀ db, ∃ autos,
     show_all_auto owner db = (Ok autos, db)
     ∧ ∀ a, a ∈ autos ↔ a ∈ rows db ∧ status a = true)
  ∧ (∀ year_now current_user b m j st db,
       allowed_owner_or_customer current_user →
       jahr_in_range year_now j = true →
       (∀ a, a ∈ rows db → search_filter b m j st a = false) →
       search_auto year_now current_user b m j st db =
         (Raise (NotFoundError "No matching autos found."), db))
  ∧ (∀ year_now db,
       (∀ a, a ∈ rows db → status a = false) →
       show_all_auto owner db = (Ok [], db)
       ∧ search_auto year_now owner None None None (Some true) db =
           (Raise (NotFoundError "No matching autos found."), db)).
Proof.
  split; [|split].
  - intros db. exists (List.filter status (rows db)).
    split; [apply show_all_auto_owner|].
    intros a. rewrite list_elem_of_In, filter_In, <- list_elem_of_In.
    done.
  - intros. by apply search_auto_no_match.
  - intros year_now db Hnone. split.
    + rewrite show_all_auto_owner. f_equal. f_equal.
      induction (rows db) as [|a l IH]; [done|]. cbn.
      rewrite (Hnone a) by (by left). apply IH.
      intros b Hb. apply Hnone. by right.
    + apply search_auto_no_match; [by left|done|].
      intros a Ha. unfold search_filter. cbn. by rewrite (Hnone a Ha).
Qed.

Lemma list_available_and_search_on_empty_result_witness :
  search_auto 2026 customer (Some "audi") None (Some 2010) None bmw_and_tesla =
    (Raise (NotFoundError "No matching autos found."), bmw_and_tesla)
  ∧ show_all_auto owner empty_session = (Ok [], empty_session)
  ∧ search_auto 2026 owner None None None (Some true) empty_session =
      (Raise (NotFoundError "No matching autos found."), empty_session).
Proof.
  split.
  - apply (proj1 (proj2 list_available_and_search_on_empty_result)).
    + by right.
    + reflexivity.
    + intros a Ha. apply list_elem_of_In in Ha.
      vm_compute in Ha. by destruct Ha as [<- | [<- | []]].
  - apply (proj2 (proj2 list_available_and_search_on_empty_result) 2026).
    intros a Ha. apply list_elem_of_In in Ha. by vm_compute in Ha.
Defined.

(** ** Partial update *)

Lemma valid_preis_accepted u :
  valid_preis u → invalid_preis (u_preis_pro_stunde u) = false.
Proof.
  unfold valid_preis. destruct (u_preis_pro_stunde u) as [p|]; [|done].
  intros H. cbn. apply not_true_is_false. intros Hle.
  apply Qle_bool_iff in Hle. apply (Qlt_not_le 0 p); [by apply H|done].
Qed.

(** C5: an update of an existing vehicle with a valid price, if any, returns
    the stored row in which every field the update carries has the supplied
    value and every field it leaves out has its former value; the id and
    the other rows are not touched. *)
Theorem update_auto_partial db i s u :
  store_inv db →
  table db !! i = Some s →
  valid_preis u →
  ∃ s' db',
    update_auto owner i u db = (Ok s', db')
    ∧ table db' !! i = Some s'
    ∧ id s' = id s
    ∧ brand s' = default (brand s) (u_brand u)
    ∧ model s' = default (model s) (u_model u)
    ∧ jahr s' = default (jahr s) (u_jahr u)
    ∧ preis_pro_stunde s' = default (preis_pro_stunde s) (u_preis_pro_stunde u)
    ∧ status s' = default (status s) (u_status u)
    ∧ next_id db' = next_id db
    ∧ ∀ k, k ≠ i → table db' !! k = table db !! k.
Proof.
  intros Hinv Hs Hu. destruct (Hinv _ _ Hs) as [Hid _].
  run_handler. rewrite Hs, (valid_preis_accepted u Hu). cbn.
  eexists _, _. split; [reflexivity|]. cbn.
  rewrite set_fields_id, Hid.
  split; [apply lookup_insert_eq|].
  split; [done|].
  repeat split;
    try (destruct u as [[?|] [?|] [?|] [?|] [?|]]; reflexivity).
  intros k Hk. by apply lookup_insert_ne.
Qed.

Lemma update_auto_partial_witness :
  ∃ s' db',
    update_auto owner 1
      (mkAutoUpdate None None None (Some (35 # 1)) (Some false)) one_bmw
      = (Ok s', db')
    ∧ table db' !! 1 = Some s'
    ∧ id s' = 1
    ∧ brand s' = "BMW"
    ∧ model s' = "sedan"
    ∧ jahr s' = 2010
    ∧ preis_pro_stunde s' = (35 # 1)
    ∧ status s' = false
    ∧ next_id db' = next_id one_bmw
    ∧ ∀ k, k ≠ 1 → table db' !! k = table one_bmw !! k.
Proof.
  apply (update_auto_partial one_bmw 1 bmw_row
           (mkAutoUpdate None None None (Some (35 # 1)) (Some false))).
  - apply (serve_inv 2026 owner (PostAuto bmw) empty_session).
    split; [apply store_inv_empty|reflexivity].
  - reflexivity.
  - intros p [= <-]. reflexivity.
Defined.

(** ** Authorisation *)

(** C6: for every role other than owner, each of the five owner-only
    operations fails with the authorisation error, status 403, whatever the
    session holds and whatever id is asked for, and leaves the session as it
    was. *)
Theorem owner_only_forbidden current_user db :
  current_user ≠ owner →
  status_code_of AuthorizationError = 403
  ∧ (∀ auto, create_auto current_user auto db = (Raise AuthorizationError, db))
  ∧ show_all_auto current_user db = (Raise AuthorizationError, db)
  ∧ (∀ i, show_auto current_user i db = (Raise AuthorizationError, db))
  ∧ (∀ i u, update_auto current_user i u db = (Raise AuthorizationError, db))
  ∧ (∀ i, delete_auto current_user i db = (Raise AuthorizationError, db)).
Proof.
  intros Hrole. by destruct current_user.
Qed.

Lemma owner_only_forbidden_witness :
  status_code_of AuthorizationError = 403
  ∧ (∀ auto, create_auto guest auto empty_session
             = (Raise AuthorizationError, empty_session))
  ∧ show_all_auto guest empty_session
    = (Raise AuthorizationError, empty_session)
  ∧ (∀ i, show_auto guest i empty_session
          = (Raise AuthorizationError, empty_session))
  ∧ (∀ i u, update_auto guest i u empty_session
            = (Raise AuthorizationError, empty_session))
  ∧ (∀ i, delete_auto guest i empty_session
          = (Raise AuthorizationError, empty_session)).
Proof.
  apply (owner_only_forbidden guest empty_session). discriminate.
Defined.

(** ** Text filters of the search *)

Lemma some_suffix_ext f g s :
  (∀ t, f t = g t) → some_suffix f s = some_suffix g s.
Proof.
  intros Hfg. induction s as [|c s IH]; cbn; rewrite Hfg; [done|].
  by rewrite IH.
Qed.

Lemma like_percent q s : like (String "%" q) s = some_suffix (like q) s.
Proof.
  cbn. induction s as [|c s IH]; cbn; [done|]. by rewrite IH.
Qed.

Lemma contains_some_suffix p s : contains p s = some_suffix (is_prefix p) s.
Proof. induction s as [|c s IH]; cbn; [done|]. by rewrite IH. Qed.

Lemma like_trailing_percent s : like "%" s = true.
Proof.
  rewrite like_percent. induction s as [|c s IH]; [done|].
  cbn [some_suffix]. rewrite IH. apply orb_true_r.
Qed.

Lemma like_cons c p s :
  like (String c p) s =
    if Ascii.eqb c "%" then some_suffix (like p) s
    else match s with
         | EmptyString => false
         | String d s' => (Ascii.eqb c "_" || Ascii.eqb c d) && like p s'
         end.
Proof.
  destruct (Ascii.eqb c "%") eqn:E.
  - apply Ascii.eqb_eq in E. subst c. apply like_percent.
  - destruct s; simpl; by rewrite E.
Qed.

Lemma like_plain_prefix p s :
  plain p = true → like (p +:+ "%") s = is_prefix p s.
Proof.
  revert s. induction p as [|c p IH]; intros s Hp.
  - change ("" +:+ "%") with "%". rewrite like_trailing_percent. by destruct s.
  - cbn in Hp. apply andb_prop in Hp as [Hc Hp].
    apply andb_prop in Hc as [Hc1 Hc2].
    apply negb_true_iff in Hc1, Hc2.
    change (String c p +:+ "%") with (String c (p +:+ "%")).
    rewrite like_cons, Hc1, Hc2.
    destruct s as [|d s]; [done|]. cbn. by rewrite IH.
Qed.

Lemma like_plain_contains p s :
  plain p = true → like ("%" +:+ p +:+ "%") s = contains p s.
Proof.
  intros Hp. change ("%" +:+ p +:+ "%") with (String "%" (p +:+ "%")).
  rewrite like_percent, contains_some_suffix.
  apply some_suffix_ext. intros t. by apply like_plain_prefix.
Qed.

Lemma lower_ascii_percent c :
  Ascii.eqb (lower_ascii c) "%" = Ascii.eqb c "%".
Proof. by destruct c as [[] [] [] [] [] [] [] []]. Qed.

Lemma lower_ascii_underscore c :
  Ascii.eqb (lower_ascii c) "_" = Ascii.eqb c "_".
Proof. by destruct c as [[] [] [] [] [] [] [] []]. Qed.

Lemma lower_app s t : lower (s +:+ t) = lower s +:+ lower t.
Proof. induction s as [|c s IH]; simpl; [done|]. by rewrite IH. Qed.

Lemma plain_lower s : plain (lower s) = plain s.
Proof.
  induction s as [|c s IH]; cbn; [done|].
  by rewrite lower_ascii_percent, lower_ascii_underscore, IH.
Qed.

(** On a text without wildcards the pattern [%text%] is the
    case-insensitive substring test. *)
Lemma ilike_plain_contains_ci column text :
  plain text = true →
  ilike column ("%" +:+ text +:+ "%") = contains_ci text column.
Proof.
  intros Hp. unfold ilike, contains_ci.
  rewrite !lower_app. change (lower "%") with "%".
  apply like_plain_contains. by rewrite plain_lower.
Qed.

Lemma contains_empty s : contains "" s = true.
Proof. by destruct s. Qed.

(** With wildcard-free texts and a year inside the validated range, the
    filter of [search_auto] is the conjunction the specification asks for. *)
Lemma search_filter_plain_spec year_now b m j st a :
  plain_filter b → plain_filter m → jahr_in_range year_now j = true →
  search_filter b m j st a = spec_match b m j st a.
Proof.
  intros Hb Hm Hj. unfold search_filter, spec_match.
  assert (Htext : ∀ (o : option string) column,
            plain_filter o →
            text_clause o column = from_option (λ t, contains_ci t column) true o).
  { intros [[|c t]|] column Ho; cbn [text_clause from_option];
      [|by apply ilike_plain_contains_ci, Ho|done].
    unfold contains_ci. by rewrite contains_empty. }
  assert (Hyear : jahr_clause j (jahr a) = from_option (λ y, jahr a =? y) true j).
  { destruct j as [y|]; cbn [jahr_clause from_option]; [|done].
    cbn in Hj. apply andb_prop in Hj as [Hlo _]. apply Z.leb_le in Hlo.
    destruct (y =? 0) eqn:Hz; [|done]. apply Z.eqb_eq in Hz. lia. }
  rewrite (Htext b _ Hb), (Htext m _ Hm), Hyear. by destruct st.
Qed.

(** X12: for the owner and the customer, with brand and model texts free of
    [%] and [_] and a year inside the validated range, a search that answers
    returns exactly the rows whose brand and model contain the texts up to
    letter case and whose year and status equal the supplied ones, and it
    answers 404 exactly when no row is such. *)
Lemma search_auto_plain_exact year_now current_user b m j st db :
  allowed_owner_or_customer current_user →
  plain_filter b → plain_filter m → jahr_in_range year_now j = true →
  (∀ result,
     (search_auto year_now current_user b m j st db).1 = Ok result →
     ∀ a, a ∈ result ↔ a ∈ rows db ∧ spec_match b m j st a = true)
  ∧ ((∃ detail, (search_auto year_now current_user b m j st db).1
               = Raise (NotFoundError detail))
     ↔ ∀ a, a ∈ rows db → spec_match b m j st a = false).
Proof.
  intros Hrole Hb Hm Hj. rewrite search_auto_run by done.
  assert (Hin : ∀ a, a ∈ List.filter (search_filter b m j st) (rows db)
                     ↔ a ∈ rows db ∧ spec_match b m j st a = true).
  { intros a. rewrite list_elem_of_In, filter_In, <- list_elem_of_In.
    by rewrite (search_filter_plain_spec year_now b m j st a). }
  destruct (List.filter _ _) as [|x l]; cbn; split.
  - intros result [=].
  - split.
    + intros _ a Ha. apply not_true_is_false. intros Hs.
      by apply (not_elem_of_nil a), Hin.
    + intros _. by eexists.
  - by intros result [= <-].
  - split.
    + by intros [d [=]].
    + intros Hnone. assert (Hx : x ∈ x :: l) by left.
      apply Hin in Hx as [Hx Hs]. by rewrite (Hnone x Hx) in Hs.
Qed.

(** C7: at the brand filter ["_"] the search returns the BMW row, whose
    brand does not contain ["_"]: the text is sent to [ilike] as it comes, so
    [_] and [%] in it act as wildcards instead of matching themselves. *)
Theorem search_auto_wildcard_brand :
  search_auto 2026 customer (Some "_") None None None one_bmw =
    (Ok [bmw_row], one_bmw)
  ∧ contains_ci "_" (brand bmw_row) = false
  ∧ spec_match (Some "_") None None None bmw_row = false.
Proof. by vm_compute. Qed.

(** ** Validation of path and query parameters *)

(** C8 as stated fails for the three handlers whose id is a bare [int]: an
    id that is not positive reaches the store lookup and is answered 404. *)
Lemma bare_int_id_counterexample :
  show_auto owner 0 empty_session =
    (Raise (NotFoundError "Auto with ID 0 not found."), empty_session)
  ∧ update_auto owner (-5) (mkAutoUpdate None None None None (Some false))
      one_bmw =
    (Raise (NotFoundError "Auto with ID -5 does not exist."), one_bmw)
  ∧ delete_auto owner (-5) one_bmw =
    (Raise (NotFoundError "Auto with ID -5 not found."), one_bmw)
  ∧ status_code_of (NotFoundError "Auto with ID 0 not found.") ≠ 422.
Proof. by vm_compute. Qed.

(** C8 (amended): the price calculation rejects an id or a duration that
    is not positive with 422, the same answer for every session and the
    session left as it was; fetching, updating and deleting by id never
    answer with a request-validation error, whatever the id. *)
Theorem path_and_query_validation current_user i h :
  allowed_owner_or_customer current_user →
  i ≤ 0 ∨ h ≤ 0 →
  (∃ locs,
     status_code_of (RequestValidationError locs) = 422
     ∧ ∀ db, calculate_total_price current_user i h db =
               (Raise (RequestValidationError locs), db))
  ∧ (∀ any_user j u db locs,
       (show_auto any_user j db).1 ≠ Raise (RequestValidationError locs)
       ∧ (update_auto any_user j u db).1 ≠ Raise (RequestValidationError locs)
       ∧ (delete_auto any_user j db).1 ≠ Raise (RequestValidationError locs)).
Proof.
  intros Hrole Hbad. split.
  - exists ((List.filter (λ c : string * bool, negb c.2)
               [("auto_id", 0 <? i); ("mietdauer_stunden", 0 <? h)]).*1).
    split; [done|]. intros db. run_handler.
    destruct Hrole as [-> | ->]; cbn;
      (destruct (0 <? i) eqn:Hi, (0 <? h) eqn:Hh; cbn; try done;
       apply Z.ltb_lt in Hi, Hh; lia).
  - intros any_user j u db locs. run_handler.
    destruct any_user; cbn; try done;
      (destruct (table db !! j) as [a|]; cbn; [|done];
       split; [done|]; split; [|done];
       by destruct (invalid_preis _)).
Qed.

Lemma path_and_query_validation_witness :
  (∃ locs,
     status_code_of (RequestValidationError locs) = 422
     ∧ ∀ db, calculate_total_price customer 1 (-5) db =
               (Raise (RequestValidationError locs), db))
  ∧ (∀ any_user j u db locs,
       (show_auto any_user j db).1 ≠ Raise (RequestValidationError locs)
       ∧ (update_auto any_user j u db).1 ≠ Raise (RequestValidationError locs)
       ∧ (delete_auto any_user j db).1 ≠ Raise (RequestValidationError locs)).
Proof.
  apply (path_and_query_validation customer 1 (-5)).
  - by right.
  - right. lia.
Defined.

(** ** Search without filters and with empty texts *)

Lemma filter_all_true {A} (f : A → bool) (l : list A) :
  (∀ a, f a = true) → List.filter f l = l.
Proof.
  intros Hf. induction l as [|a l IH]; cbn; [done|]. by rewrite Hf, IH.
Qed.

Lemma rows_empty db : rows db = [] ↔ table db = ∅.
Proof.
  unfold rows. rewrite <- map_to_list_empty_iff. split.
  - apply fmap_nil_inv.
  - by intros ->.
Qed.

(** C9: a search with no filter at all returns every row of the store, and
    fails, with 404, exactly when the store has no row. *)
Theorem search_auto_no_filters year_now current_user db :
  allowed_owner_or_customer current_user →
  (table db = ∅ →
     search_auto year_now current_user None None None None db =
       (Raise (NotFoundError "No matching autos found."), db))
  ∧ (table db ≠ ∅ →
       search_auto year_now current_user None None None None db =
         (Ok (rows db), db)).
Proof.
  intros Hrole. rewrite search_auto_run by done.
  rewrite filter_all_true by done.
  split; intros Hdb.
  - apply rows_empty in Hdb. by rewrite Hdb.
  - destruct (rows db) eqn:Hr; [|done].
    by apply rows_empty in Hr.
Qed.

Lemma search_auto_no_filters_witness :
  search_auto 2026 customer None None None None empty_session =
    (Raise (NotFoundError "No matching autos found."), empty_session)
  ∧ search_auto 2026 customer None None None None bmw_and_tesla =
      (Ok (rows bmw_and_tesla), bmw_and_tesla).
Proof.
  split.
  - apply (proj1 (search_auto_no_filters 2026 customer empty_session
                    (or_intror eq_refl))).
    reflexivity.
  - apply (proj2 (search_auto_no_filters 2026 customer bmw_and_tesla
                    (or_intror eq_refl))).
    intros Hempty. apply (f_equal (λ t : gmap Z AutoModel, t !! 1)) in Hempty.
    by vm_compute in Hempty.
Defined.

(** C10: an empty brand text, or an empty model text, is treated as the
    absence of that filter: both requests are answered alike in every
    session. *)
Theorem search_auto_empty_text year_now current_user b m j st db :
  search_auto year_now current_user (Some "") m j st db =
    search_auto year_now current_user None m j st db
  ∧ search_auto year_now current_user b (Some "") j st db =
      search_auto year_now current_user b None j st db.
Proof. split; reflexivity. Qed.

(** * Further properties of the handlers *)

(** ** Creating a vehicle *)

Lemma store_inv_next_free db : store_inv db → table db !! next_id db = None.
Proof.
  intros Hinv. destruct (table db !! next_id db) as [a|] eqn:Ha; [|done].
  destruct (Hinv _ _ Ha) as [_ ?]. lia.
Qed.

Lemma positive_price_accepted p : Qlt 0 p → Qle_bool p 0 = false.
Proof.
  intros Hp. apply not_true_is_false. intros Hle.
  apply Qle_bool_iff in Hle. by apply (Qlt_not_le 0 p).
Qed.

Lemma accepted_price_positive p : Qle_bool p 0 = false → Qlt 0 p.
Proof.
  intros Hp. apply Qnot_le_lt. intros Hle.
  apply Qle_bool_iff in Hle. congruence.
Qed.

(** X1: for the owner and a positive price, [create_auto] returns a row that
    carries the fields of the request, under an id no row had before; the
    row is stored under that id and every other row is left as it was. *)
Theorem create_auto_stores db auto :
  store_inv db →
  Qlt 0 (c_preis_pro_stunde auto) →
  ∃ row db',
    create_auto owner auto db = (Ok row, db')
    ∧ brand row = c_brand auto
    ∧ model row = c_model auto
    ∧ jahr row = c_jahr auto
    ∧ preis_pro_stunde row = c_preis_pro_stunde auto
    ∧ status row = c_status auto
    ∧ table db !! id row = None
    ∧ table db' !! id row = Some row
    ∧ ∀ k, k ≠ id row → table db' !! k = table db !! k.
Proof.
  intros Hinv Hp. run_handler. rewrite (positive_price_accepted _ Hp). cbn.
  eexists _, _. split; [reflexivity|]. cbn.
  repeat split.
  - by apply store_inv_next_free.
  - apply lookup_insert_eq.
  - intros k Hk. by apply lookup_insert_ne.
Qed.

Lemma create_auto_stores_witness :
  ∃ row db',
    create_auto owner tesla one_bmw = (Ok row, db')
    ∧ brand row = "Tesla"
    ∧ model row = "model 3"
    ∧ jahr row = 2020
    ∧ preis_pro_stunde row = (50 # 1)
    ∧ status row = false
    ∧ table one_bmw !! id row = None
    ∧ table db' !! id row = Some row
    ∧ ∀ k, k ≠ id row → table db' !! k = table one_bmw !! k.
Proof.
  apply (create_auto_stores one_bmw tesla).
  - exact one_bmw_inv.
  - reflexivity.
Defined.

(** X2: a vehicle that [create_auto] returned is what [show_auto] returns
    for its id right afterwards, and the lookup leaves the session alone. *)
Theorem create_then_show_auto current_user db auto row db' :
  create_auto current_user auto db = (Ok row, db') →
  show_auto current_user (id row) db' = (Ok row, db').
Proof.
  run_handler. destruct current_user; cbn; try done.
  destruct (Qle_bool _ _); cbn; [done|].
  intros [= <- <-]. cbn. by rewrite lookup_insert_eq.
Qed.

Lemma create_then_show_auto_witness :
  show_auto owner 1 one_bmw = (Ok bmw_row, one_bmw).
Proof.
  apply (create_then_show_auto owner empty_session bmw bmw_row one_bmw).
  reflexivity.
Defined.

(** X3: after a successful [create_auto] in a session whose sequence is
    positive, the price of the new vehicle for [h > 0] hours is its hourly
    price times [h] when it was created available, and the 400 answer when
    it was created unavailable. *)
Theorem create_then_calculate_total_price db auto row db' current_user h :
  0 < next_id db →
  create_auto owner auto db = (Ok row, db') →
  allowed_owner_or_customer current_user →
  0 < h →
  calculate_total_price current_user (id row) h db' =
    if c_status auto then
      (Ok (mkPriceResult (id row) h (c_preis_pro_stunde auto)
             (Qmult (c_preis_pro_stunde auto) (inject_Z h))), db')
    else
      (Raise (BusinessValidationError "The auto is currently not available."),
       db').
Proof.
  intros Hseq Hcreate Hrole Hh.
  revert Hcreate. run_handler.
  destruct (Qle_bool _ _); cbn; [done|]. intros [= <- <-]. cbn.
  rewrite (proj2 (Z.ltb_lt 0 (next_id db)) Hseq), (proj2 (Z.ltb_lt 0 h) Hh).
  cbn. destruct Hrole as [-> | ->]; cbn;
    rewrite lookup_insert_eq; cbn; by destruct (c_status auto).
Qed.

Lemma create_then_calculate_total_price_witness :
  calculate_total_price customer 1 5 one_bmw =
    (Ok (mkPriceResult 1 5 (30 # 1) (Qmult (30 # 1) (inject_Z 5))), one_bmw).
Proof.
  apply (create_then_calculate_total_price empty_session bmw bmw_row one_bmw
           customer 5).
  - reflexivity.
  - reflexivity.
  - by right.
  - lia.
Defined.

(** ** Deleting, and asking for an id the store does not hold *)

(** X4: for the owner, [delete_auto] on a stored id succeeds, removes that
    row and no other, and keeps the sequence; fetching or deleting the same
    id afterwards is answered 404. *)
Theorem delete_auto_removes db i a :
  store_inv db →
  table db !! i = Some a →
  ∃ db',
    delete_auto owner i db = (Ok tt, db')
    ∧ table db' !! i = None
    ∧ (∀ k, k ≠ i → table db' !! k = table db !! k)
    ∧ next_id db' = next_id db
    ∧ show_auto owner i db' =
        (Raise (NotFoundError ("Auto with ID " +:+ pretty i +:+ " not found.")),
         db')
    ∧ delete_auto owner i db' =
        (Raise (NotFoundError ("Auto with ID " +:+ pretty i +:+ " not found.")),
         db').
Proof.
  intros Hinv Ha. destruct (Hinv _ _ Ha) as [Hid _].
  run_handler. rewrite Ha. cbn. rewrite Hid.
  eexists. split; [reflexivity|]. cbn.
  rewrite lookup_delete_eq. repeat split.
  intros k Hk. by apply lookup_delete_ne.
Qed.

Lemma delete_auto_removes_witness :
  ∃ db',
    delete_auto owner 1 bmw_and_tesla = (Ok tt, db')
    ∧ table db' !! 1 = None
    ∧ (∀ k, k ≠ 1 → table db' !! k = table bmw_and_tesla !! k)
    ∧ next_id db' = next_id bmw_and_tesla
    ∧ show_auto owner 1 db' =
        (Raise (NotFoundError ("Auto with ID " +:+ pretty 1 +:+ " not found.")),
         db')
    ∧ delete_auto owner 1 db' =
        (Raise (NotFoundError ("Auto with ID " +:+ pretty 1 +:+ " not found.")),
         db').
Proof.
  apply (delete_auto_removes bmw_and_tesla 1 bmw_row).
  - apply (serve_inv 2026 owner (PostAuto tesla) one_bmw).
    split; [exact one_bmw_inv|reflexivity].
  - reflexivity.
Defined.

(** X5: for the owner and an id the store does not hold, fetching, updating
    and deleting are each answered 404 with the session left as it was; the
    update is answered 404 whatever it carries, a price that is not positive
    included, since the lookup comes before the price check. *)
Theorem missing_id_not_found db i :
  table db !! i = None →
  show_auto owner i db =
    (Raise (NotFoundError ("Auto with ID " +:+ pretty i +:+ " not found.")), db)
  ∧ (∀ u, update_auto owner i u db =
            (Raise (NotFoundError
                      ("Auto with ID " +:+ pretty i +:+ " does not exist.")),
             db))
  ∧ delete_auto owner i db =
      (Raise (NotFoundError ("Auto with ID " +:+ pretty i +:+ " not found.")),
       db).
Proof.
  intros Hnone. run_handler. by rewrite Hnone.
Qed.

Lemma missing_id_not_found_witness :
  show_auto owner 99999 one_bmw =
    (Raise (NotFoundError "Auto with ID 99999 not found."), one_bmw)
  ∧ (∀ u, update_auto owner 99999 u one_bmw =
            (Raise (NotFoundError "Auto with ID 99999 does not exist."),
             one_bmw))
  ∧ delete_auto owner 99999 one_bmw =
      (Raise (NotFoundError "Auto with ID 99999 not found."), one_bmw).
Proof.
  apply (missing_id_not_found one_bmw 99999). reflexivity.
Defined.

(** ** Updating *)

Lemma update_auto_run db i a u :
  table db !! i = Some a →
  invalid_preis (u_preis_pro_stunde u) = false →
  update_auto owner i u db =
    (Ok (apply_update u a),
     mkSession (<[id (apply_update u a) := apply_update u a]> (table db))
               (next_id db)).
Proof.
  intros Ha Hu. run_handler. by rewrite Ha, Hu.
Qed.

Lemma apply_update_id u a : id (apply_update u a) = id a.
Proof. apply set_fields_id. Qed.

Lemma apply_update_twice u a :
  apply_update u (apply_update u a) = apply_update u a.
Proof.
  destruct a, u as [[?|] [?|] [?|] [?|] [?|]]; reflexivity.
Qed.

(** X6: for the owner, an update that carries no field returns the stored
    row and leaves the whole session as it was. *)
Theorem update_auto_no_change db i a :
  store_inv db →
  table db !! i = Some a →
  update_auto owner i no_change db = (Ok a, db).
Proof.
  intros Hinv Ha. destruct (Hinv _ _ Ha) as [Hid _].
  rewrite (update_auto_run db i a no_change Ha eq_refl).
  change (apply_update no_change a) with a. rewrite Hid.
  rewrite (insert_id _ _ _ Ha). by destruct db.
Qed.

Lemma update_auto_no_change_witness :
  update_auto owner 1 no_change one_bmw = (Ok bmw_row, one_bmw).
Proof.
  apply (update_auto_no_change one_bmw 1 bmw_row).
  - exact one_bmw_inv.
  - reflexivity.
Defined.

(** X7: an update that succeeded, sent a second time, returns the same row
    and leaves the session as the first one left it. *)
Theorem update_auto_idempotent db i u s' db' :
  store_inv db →
  update_auto owner i u db = (Ok s', db') →
  update_auto owner i u db' = (Ok s', db').
Proof.
  intros Hinv. 
  destruct (table db !! i) as [a|] eqn:Ha;
    [|run_handler; by rewrite Ha].
  destruct (invalid_preis (u_preis_pro_stunde u)) eqn:Hu;
    [run_handler; by rewrite Ha, Hu|].
  destruct (Hinv _ _ Ha) as [Hid _].
  rewrite (update_auto_run db i a u Ha Hu).
  rewrite apply_update_id, Hid. intros [= <- <-].
  rewrite (update_auto_run _ i (apply_update u a) u); cbn;
    [|apply lookup_insert_eq|done].
  rewrite apply_update_twice, apply_update_id, Hid.
  by rewrite insert_insert_eq.
Qed.

Lemma update_auto_idempotent_witness :
  update_auto owner 1
    (mkAutoUpdate None None None (Some (35 # 1)) (Some false))
    (update_auto owner 1
       (mkAutoUpdate None None None (Some (35 # 1)) (Some false)) one_bmw).2
  = (Ok (mkAuto 1 "BMW" "sedan" 2010 (35 # 1) false),
     (update_auto owner 1
        (mkAutoUpdate None None None (Some (35 # 1)) (Some false)) one_bmw).2).
Proof.
  apply (update_auto_idempotent one_bmw 1
           (mkAutoUpdate None None None (Some (35 # 1)) (Some false))).
  - exact one_bmw_inv.
  - reflexivity.
Defined.

(** ** What the handlers never write *)

(** X8: listing, searching, fetching and pricing leave the session exactly
    as they found it, for every caller and every argument, whether they
    answer or raise. *)
Theorem read_handlers_keep_session year_now current_user db :
  (show_all_auto current_user db).2 = db
  ∧ (∀ b m j st, (search_auto year_now current_user b m j st db).2 = db)
  ∧ (∀ i, (show_auto current_user i db).2 = db)
  ∧ (∀ i h, (calculate_total_price current_user i h db).2 = db).
Proof.
  repeat split; intros; run_handler.
  - by destruct current_user.
  - destruct current_user; cbn; try done;
      (destruct (jahr_in_range year_now j); cbn; [|done];
       by destruct (List.filter _ _)).
  - destruct current_user; cbn; try done. by destruct (table db !! i).
  - destruct current_user; cbn; try done;
      (destruct (0 <? i), (0 <? h); cbn; try done;
       destruct (table db !! i) as [a|]; cbn; [|done];
       by destruct (status a)).
Qed.

(** X9: a create, update or delete request that raises, whatever the error,
    has written nothing: the session is the one it started from. *)
Theorem failed_write_keeps_session current_user db :
  (∀ auto f, (create_auto current_user auto db).1 = Raise f →
             (create_auto current_user auto db).2 = db)
  ∧ (∀ i u f, (update_auto current_user i u db).1 = Raise f →
              (update_auto current_user i u db).2 = db)
  ∧ (∀ i f, (delete_auto current_user i db).1 = Raise f →
            (delete_auto current_user i db).2 = db).
Proof.
  repeat split; intros *; run_handler; destruct current_user; cbn; try done.
  - by destruct (Qle_bool _ _).
  - destruct (table db !! i); cbn; [|done]. by destruct (invalid_preis _).
  - by destruct (table db !! i).
Qed.

Lemma failed_write_keeps_session_witness :
  (create_auto guest bmw one_bmw).2 = one_bmw
  ∧ (update_auto owner 1
       (mkAutoUpdate (Some "Audi") None None (Some (0 # 1)) None) one_bmw).2
    = one_bmw
  ∧ (delete_auto owner 7 one_bmw).2 = one_bmw.
Proof.
  destruct (failed_write_keeps_session guest one_bmw) as [Hc _].
  destruct (failed_write_keeps_session owner one_bmw) as [_ [Hu Hd]].
  split; [|split].
  - apply (Hc bmw AuthorizationError). reflexivity.
  - apply (Hu 1 _ (BusinessValidationError
                     "Price per hour must be greater than 0.")).
    reflexivity.
  - apply (Hd 7 (NotFoundError "Auto with ID 7 not found.")). reflexivity.
Defined.

(** ** Invariants of the sessions the handlers can produce *)

Lemma apply_update_preis u a :
  preis_pro_stunde (apply_update u a)
  = default (preis_pro_stunde a) (u_preis_pro_stunde u).
Proof. destruct u as [[?|] [?|] [?|] [?|] [?|]]; reflexivity. Qed.

Lemma serve_prices_positive year_now current_user r db :
  prices_positive db → prices_positive (serve year_now current_user r db).
Proof.
  intros Hpos.
  destruct r as [auto| |b m j st|i|i u|i h|i]; cbn.
  - run_handler. destruct current_user; cbn; try done.
    destruct (Qle_bool _ _) eqn:Hp; cbn; [done|].
    intros k a. cbn. rewrite lookup_insert. case_decide.
    + intros [= <-]. cbn. by apply accepted_price_positive.
    + apply Hpos.
  - run_handler. by destruct current_user.
  - run_handler. destruct current_user; cbn; try done;
      (destruct (jahr_in_range year_now j); cbn; [|done];
       by destruct (List.filter _ _)).
  - run_handler. destruct current_user; cbn; try done.
    by destruct (table db !! i).
  - run_handler. destruct current_user; cbn; try done.
    destruct (table db !! i) as [a|] eqn:Ha; cbn; [|done].
    destruct (invalid_preis _) eqn:Hu; cbn; [done|].
    intros k c. cbn. rewrite lookup_insert. case_decide.
    + intros [= <-]. fold (apply_update u a). rewrite apply_update_preis.
      destruct (u_preis_pro_stunde u) as [p|]; cbn in *.
      * by apply accepted_price_positive.
      * by apply (Hpos i).
    + apply Hpos.
  - run_handler. destruct current_user; cbn; try done;
      (destruct (0 <? i), (0 <? h); cbn; try done;
       destruct (table db !! i) as [a|]; cbn; [|done];
       by destruct (status a)).
  - run_handler. destruct current_user; cbn; try done.
    destruct (table db !! i) as [a|]; cbn; [|done].
    intros k c. cbn. rewrite lookup_delete. case_decide; [done|]. apply Hpos.
Qed.

(** X10: in every session reached from the empty store by any sequence of
    requests, from whatever callers, each row is stored under its own id,
    the ids are positive and below the sequence, and every stored price is
    positive. *)
Theorem reachable_wellformed year_now db :
  reachable year_now db →
  store_inv db ∧ 0 < next_id db ∧ prices_positive db.
Proof.
  intros Hreach. destruct (reachable_inv _ _ Hreach) as [Hinv Hseq].
  split; [done|]. split; [done|]. clear Hinv Hseq.
  induction Hreach as [|db u r _ IH].
  - intros k a Ha. cbn in Ha. by rewrite lookup_empty in Ha.
  - by apply serve_prices_positive.
Qed.

Lemma reachable_bmw_and_tesla : reachable 2026 bmw_and_tesla.
Proof.
  apply (reachable_serve 2026 one_bmw owner (PostAuto tesla)).
  apply (reachable_serve 2026 empty_session owner (PostAuto bmw)).
  apply reachable_empty.
Qed.

Lemma reachable_wellformed_witness :
  store_inv bmw_and_tesla ∧ 0 < next_id bmw_and_tesla
  ∧ prices_positive bmw_and_tesla.
Proof.
  apply (reachable_wellformed 2026 bmw_and_tesla).
  exact reachable_bmw_and_tesla.
Defined.

(** X11: whenever the price calculation answers in a session whose prices
    are positive, the total it returns is positive, and it is the returned
    hourly price times the returned duration. *)
Theorem calculate_total_price_positive db current_user i h r :
  prices_positive db →
  (calculate_total_price current_user i h db).1 = Ok r →
  Qlt 0 (total_price r)
  ∧ total_price r = Qmult (price_per_hour r) (inject_Z (rental_duration_hours r)).
Proof.
  intros Hpos. run_handler.
  destruct current_user; cbn; try done;
    (destruct (0 <? i) eqn:Hi, (0 <? h) eqn:Hh; cbn; try done;
     destruct (table db !! i) as [a|] eqn:Ha; cbn; [|done];
     destruct (status a); cbn; [|done];
     intros [= <-]; cbn; split; [|done];
     apply Qmult_lt_0_compat; [by apply (Hpos i)|];
     apply Z.ltb_lt in Hh; unfold Qlt; cbn; lia).
Qed.

Lemma calculate_total_price_positive_witness :
  Qlt 0 (Qmult (30 # 1) (inject_Z 5))
  ∧ Qmult (30 # 1) (inject_Z 5) = Qmult (30 # 1) (inject_Z 5).
Proof.
  apply (calculate_total_price_positive one_bmw customer 1 5
           (mkPriceResult 1 5 (30 # 1) (Qmult (30 # 1) (inject_Z 5)))).
  - intros k a Ha.
    assert (Hin : In a (rows one_bmw))
      by (apply list_elem_of_In; by apply (rows_lookup one_bmw k)).
    vm_compute in Hin. by destruct Hin as [<- | []].
  - reflexivity.
Defined.

(** ** More on searching *)

Lemma search_auto_plain_exact_witness :
  (∀ result,
     (search_auto 2026 customer (Some "bm") None (Some 2010) (Some true)
        bmw_and_tesla).1 = Ok result →
     ∀ a, a ∈ result
          ↔ a ∈ rows bmw_and_tesla
            ∧ spec_match (Some "bm") None (Some 2010) (Some true) a = true)
  ∧ ((∃ detail,
        (search_auto 2026 customer (Some "bm") None (Some 2010) (Some true)
           bmw_and_tesla).1 = Raise (NotFoundError detail))
     ↔ ∀ a, a ∈ rows bmw_and_tesla →
            spec_match (Some "bm") None (Some 2010) (Some true) a = false).
Proof.
  apply (search_auto_plain_exact 2026 customer (Some "bm") None (Some 2010)
           (Some true) bmw_and_tesla).
  - by right.
  - intros s [= <-]. reflexivity.
  - intros s [=].
  - reflexivity.
Defined.

Lemma search_auto_filter_ext year_now current_user b m j st b' m' db :
  (∀ a, search_filter b m j st a = search_filter b' m' j st a) →
  search_auto year_now current_user b m j st db
  = search_auto year_now current_user b' m' j st db.
Proof.
  intros Hext. run_handler.
  destruct current_user; cbn; try done;
    (destruct (jahr_in_range year_now j); cbn; [|done];
     by rewrite (filter_ext _ _ Hext)).
Qed.

Lemma lower_nonempty s t :
  lower s = lower t →
  match s, t with
  | EmptyString, EmptyString | String _ _, String _ _ => True
  | _, _ => False
  end.
Proof. by destruct s, t. Qed.

Lemma text_clause_lower s t column :
  lower s = lower t →
  text_clause (Some s) column = text_clause (Some t) column.
Proof.
  intros Hst. pose proof (lower_nonempty s t Hst) as Hne.
  destruct s as [|c s], t as [|d t]; try done.
  cbn [text_clause]. unfold ilike. by rewrite !lower_app, Hst.
Qed.

(** X13: the text filters of the search ignore letter case: two brand texts
    that agree up to the case of their ASCII letters, and likewise two model
    texts, are answered alike in every session. *)
Theorem search_auto_case_insensitive year_now current_user
    b b' m m' j st db :
  lower b = lower b' →
  lower m = lower m' →
  search_auto year_now current_user (Some b) (Some m) j st db
  = search_auto year_now current_user (Some b') (Some m') j st db.
Proof.
  intros Hb Hm. apply search_auto_filter_ext. intros a.
  unfold search_filter.
  by rewrite (text_clause_lower b b' _ Hb), (text_clause_lower m m' _ Hm).
Qed.

Lemma search_auto_case_insensitive_witness :
  search_auto 2026 customer (Some "BMW") (Some "Sedan") None None bmw_and_tesla
  = search_auto 2026 customer (Some "bmw") (Some "sEDAN") None None
      bmw_and_tesla.
Proof.
  apply (search_auto_case_insensitive 2026 customer "BMW" "bmw"
           "Sedan" "sEDAN").
  - reflexivity.
  - reflexivity.
Defined.

(** X14: for the owner and the customer, a search whose year lies below
    2000 or above the year read at load time is answered 422 on [jahr],
    the same for every session and whatever the other filters, and the
    session is left as it was. *)
Theorem search_auto_year_out_of_range year_now current_user b m j st db :
  allowed_owner_or_customer current_user →
  j < 2000 ∨ year_now < j →
  search_auto year_now current_user b m (Some j) st db
  = (Raise (RequestValidationError ["jahr"]), db).
Proof.
  intros Hrole Hj. run_handler.
  assert (Hr : (2000 <=? j) && (j <=? year_now) = false).
  { apply andb_false_iff. destruct Hj as [Hj | Hj].
    - left. apply Z.leb_gt. lia.
    - right. apply Z.leb_gt. lia. }
  rewrite Hr. by destruct Hrole as [-> | ->].
Qed.

Lemma search_auto_year_out_of_range_witness :
  search_auto 2026 owner (Some "BMW") None (Some 1999) None one_bmw
  = (Raise (RequestValidationError ["jahr"]), one_bmw).
Proof.
  apply (search_auto_year_out_of_range 2026 owner (Some "BMW") None 1999
           None one_bmw).
  - by left.
  - left. lia.
Defined.

(** X15: for the owner, as soon as some vehicle is available, searching
    with the single filter [status = true] gives the very answer of the
    listing of available vehicles. *)
Theorem search_available_is_listing year_now db a :
  a ∈ rows db → status a = true →
  search_auto year_now owner None None None (Some true) db
  = show_all_auto owner db.
Proof.
  intros Ha Hst. rewrite search_auto_run by (done || by left).
  rewrite show_all_auto_owner.
  assert (Hext : ∀ x, search_filter None None None (Some true) x = status x)
    by (intros x; unfold search_filter; cbn; by destruct (status x)).
  rewrite (filter_ext _ _ Hext).
  destruct (List.filter status (rows db)) as [|x l] eqn:Hf; [|done].
  assert (Hin : In a (List.filter status (rows db))).
  { apply filter_In. split; [by apply list_elem_of_In|done]. }
  by rewrite Hf in Hin.
Qed.

Lemma search_available_is_listing_witness :
  search_auto 2026 owner None None None (Some true) bmw_and_tesla
  = show_all_auto owner bmw_and_tesla.
Proof.
  apply (search_available_is_listing 2026 bmw_and_tesla bmw_row).
  - apply (rows_lookup bmw_and_tesla 1). reflexivity.
  - reflexivity.
Defined.

(** ** What listing and searching see after a write *)

Lemma elem_of_rows db a : a ∈ rows db ↔ ∃ k, table db !! k = Some a.
Proof.
  split.
  - intros Hin. unfold rows in Hin.
    apply list_elem_of_fmap in Hin as [[k b] [-> Hkb]].
    exists k. by apply elem_of_map_to_list.
  - intros [k Hk]. by apply (rows_lookup db k).
Qed.

Lemma length_rows db : length (rows db) = size (table db).
Proof. unfold rows. by rewrite length_fmap, length_map_to_list. Qed.

(** X16: in a well-formed session a successful create adds exactly one row,
    a successful update keeps the number of rows, and a successful delete
    takes exactly one row away. *)
Theorem row_counts current_user db :
  store_inv db →
  (∀ auto row db',
     create_auto current_user auto db = (Ok row, db') →
     length (rows db') = S (length (rows db)))
  ∧ (∀ i u s' db',
       update_auto current_user i u db = (Ok s', db') →
       length (rows db') = length (rows db))
  ∧ (∀ i db',
       delete_auto current_user i db = (Ok tt, db') →
       S (length (rows db')) = length (rows db)).
Proof.
  intros Hinv. rewrite !length_rows. repeat split; intros *; run_handler;
    destruct current_user; cbn; try done.
  - destruct (Qle_bool _ _); cbn; [done|]. intros [= <- <-].
    rewrite length_rows. cbn.
    by rewrite map_size_insert_None by (by apply store_inv_next_free).
  - destruct (table db !! i) as [a|] eqn:Ha; cbn; [|done].
    destruct (invalid_preis _); cbn; [done|]. intros [= <- <-].
    rewrite length_rows. cbn. rewrite set_fields_id.
    destruct (Hinv _ _ Ha) as [-> _].
    by rewrite map_size_insert_Some by (by eexists).
  - destruct (table db !! i) as [a|] eqn:Ha; cbn; [|done]. intros [= <-].
    rewrite length_rows. cbn. destruct (Hinv _ _ Ha) as [-> _].
    rewrite map_size_delete_Some by (by eexists).
    assert (size (table db) ≠ 0%nat); [|lia].
    intros Hz. apply map_size_empty_iff in Hz. by rewrite Hz in Ha.
Qed.

Lemma row_counts_witness :
  length (rows bmw_and_tesla) = S (length (rows one_bmw))
  ∧ length (rows (update_auto owner 1 no_change one_bmw).2)
    = length (rows one_bmw)
  ∧ S (length (rows (delete_auto owner 1 one_bmw).2)) = length (rows one_bmw).
Proof.
  destruct (row_counts owner one_bmw one_bmw_inv) as [Hc [Hu Hd]].
  split; [|split].
  - apply (Hc tesla tesla_row). reflexivity.
  - apply (Hu 1 no_change bmw_row). reflexivity.
  - apply (Hd 1). reflexivity.
Defined.

(** X17: a vehicle that was just created is in the owner's listing of
    available vehicles exactly when it was created with status true. *)
Theorem created_row_in_listing db auto row db' :
  create_auto owner auto db = (Ok row, db') →
  ∃ autos,
    show_all_auto owner db' = (Ok autos, db')
    ∧ (row ∈ autos ↔ c_status auto = true).
Proof.
  intros Hcreate. exists (List.filter status (rows db')).
  split; [apply show_all_auto_owner|].
  rewrite list_elem_of_In, filter_In, <- list_elem_of_In.
  revert Hcreate. run_handler.
  destruct (Qle_bool _ _); cbn; [done|]. intros [= <- <-]. cbn.
  split; [by intros [_ ?]|]. intros Hst. split; [|done].
  apply elem_of_rows. exists (next_id db). cbn. apply lookup_insert_eq.
Qed.

Lemma created_row_in_listing_witness :
  ∃ autos,
    show_all_auto owner bmw_and_tesla = (Ok autos, bmw_and_tesla)
    ∧ (tesla_row ∈ autos ↔ c_status tesla = true).
Proof.
  apply (created_row_in_listing one_bmw tesla tesla_row bmw_and_tesla).
  reflexivity.
Defined.

(** X18: after a successful delete in a well-formed session, the rows that
    listing and searching range over are the former rows without the one
    that had the deleted id. *)
Theorem deleted_row_gone current_user db i db' :
  store_inv db →
  delete_auto current_user i db = (Ok tt, db') →
  ∀ a, a ∈ rows db' ↔ a ∈ rows db ∧ id a ≠ i.
Proof.
  intros Hinv. run_handler. destruct current_user; cbn; try done.
  destruct (table db !! i) as [b|] eqn:Hb; cbn; [|done].
  intros [= <-] a. rewrite !elem_of_rows. cbn.
  destruct (Hinv _ _ Hb) as [-> _]. split.
  - intros [k Hk]. apply lookup_delete_Some in Hk as [Hne Hk].
    destruct (Hinv _ _ Hk) as [-> _]. split; [by exists k|done].
  - intros [[k Hk] Hne]. exists k. apply lookup_delete_Some.
    destruct (Hinv _ _ Hk) as [<- _]. done.
Qed.

Lemma deleted_row_gone_witness :
  (bmw_row ∈ rows (delete_auto owner 1 bmw_and_tesla).2
   ↔ bmw_row ∈ rows bmw_and_tesla ∧ id bmw_row ≠ 1)
  ∧ (tesla_row ∈ rows (delete_auto owner 1 bmw_and_tesla).2
     ↔ tesla_row ∈ rows bmw_and_tesla ∧ id tesla_row ≠ 1).
Proof.
  split.
  - apply (deleted_row_gone owner bmw_and_tesla 1).
    + apply (reachable_inv 2026). exact reachable_bmw_and_tesla.
    + reflexivity.
  - apply (deleted_row_gone owner bmw_and_tesla 1).
    + apply (reachable_inv 2026). exact reachable_bmw_and_tesla.
    + reflexivity.
Defined.
